(** * Kindergarten flashcards: the card-sequencing and scoring engine of
    [src/src/App.jsx], embedded in Rocq.

    The React component [App] keeps its state in [useState] hooks; we model
    that state as one record and each handler ([shuffleArray], [flip],
    [shuffleNow], [nextPractice], [startTest], [answerTest], [saveDraft])
    as a function on it. The randomness of [Math.random] is a parameter. *)

From stdpp Require Import base list sets gmap.
From Stdlib Require Import Permutation.
From Stdlib Require Strings.String Strings.Ascii NArith.
Import (notations) Stdlib.Strings.String.

(* ------------------------------------------------------------------ *)
(** ** Helpers *)

(** [Math.floor(Math.random() * (i + 1))]: any value in [0..i]. The
    successive draws are given by [rnd]; the draw for loop index [i] is
    [rnd i] reduced into range. *)
Definition pick (rnd : nat -> nat) (i : nat) : nat := rnd i mod (S i).

(** [[a[i], a[j]] = [a[j], a[i]]]: the right-hand side is read first, then
    [a[i]] and [a[j]] are assigned in that order. Both indices are in range
    in [shuffleArray] (j <= i < a.length); out of range we leave [a] as is. *)
Definition swap {A} (i j : nat) (a : list A) : list A :=
  match a !! i, a !! j with
  | Some ai, Some aj => <[j := ai]> (<[i := aj]> a)
  | _, _ => a
  end.

(** [for (let i = a.length - 1; i > 0; i--) { ... }]: the body runs for
    [i], [i-1], ..., [1]. *)
Fixpoint fy_loop {A} (rnd : nat -> nat) (i : nat) (a : list A) : list A :=
  match i with
  | 0 => a
  | S i' => fy_loop rnd i' (swap i (pick rnd i) a)
  end.

(** [shuffleArray(arr)]: Fisher-Yates on a copy of [arr]. For an empty
    array [a.length - 1] is [-1] and the loop does not run; with natural
    numbers [0 - 1 = 0], which also runs no iteration. *)
Definition shuffleArray {A} (rnd : nat -> nat) (arr : list A) : list A :=
  fy_loop rnd (length arr - 1) arr.

(** [activeDeck.cards.map((_, i) => i)] for a deck of [n] cards. *)
Definition indices (n : nat) : list nat := seq 0 n.

(** [clamp(n, min, max) = Math.max(min, Math.min(max, n))]. *)
Definition clamp (n mn mx : nat) : nat := Nat.max mn (Nat.min mx n).


(* ------------------------------------------------------------------ *)
(** ** Application state *)

(** [screen]: ["home" | "mode" | "practice" | "test" | "results" | "editor"]. *)
Inductive Screen := Home | Mode | Practice | Test | Results | Editor.

Global Instance Screen_eq_dec : EqDecision Screen.
Proof. solve_decision. Defined.

(** Practice statistics [{ seen, correct }]. *)
Record Stats := { seen : nat; st_correct : nat }.

(** Test score [{ correct, total }]. *)
Record Score := { sc_correct : nat; total : nat }.

(** The state hooks of [App] that the session handlers read and write.
    - [activeDeck]: the active deck ([null] is [None]); a deck is seen
      through its number of cards, since the handlers only index into
      [activeDeck.cards].
    - [queue]: the practice queue. Its entries are card indices, or
      [undefined] ([None]) once [q.splice(currentIdx, 1)] has read past the
      end of [q] and the result has been pushed back. *)
Record App := {
  activeDeck : option nat;
  screen : Screen;
  queue : list (option nat);
  currentIdx : nat;
  showBack : bool;
  stats : Stats;
  testQueue : list nat;
  testIdx : nat;
  testScore : Score
}.

(** The initial values of the [useState] calls. *)
Definition init : App := {|
  activeDeck := None; screen := Home; queue := []; currentIdx := 0;
  showBack := false; stats := {| seen := 0; st_correct := 0 |};
  testQueue := []; testIdx := 0; testScore := {| sc_correct := 0; total := 0 |}
|}.

Definition b2n (b : bool) : nat := if b then 1 else 0.

(** [activeDeck.cards[i]] with [i] a queue entry: a card when the index is
    defined and below the number of cards, [undefined] otherwise. *)
Definition card_at (n : nat) (v : option nat) : option nat :=
  match v with
  | Some i => if i <? n then Some i else None
  | None => None
  end.

(** [currentCard = activeDeck && queue.length ? activeDeck.cards[queue[currentIdx]] : null] *)
Definition currentCard (s : App) : option nat :=
  match activeDeck s, queue s with
  | Some n, _ :: _ => card_at n (default None (queue s !! currentIdx s))
  | _, _ => None
  end.

(** [currentTestCard = activeDeck && testQueue.length ? activeDeck.cards[testQueue[testIdx]] : null] *)
Definition currentTestCard (s : App) : option nat :=
  match activeDeck s, testQueue s with
  | Some n, _ :: _ => card_at n (testQueue s !! testIdx s)
  | _, _ => None
  end.

(* ------------------------------------------------------------------ *)
(** ** Practice mode *)

(** The practice [useEffect]: when the screen is ["practice"] and a deck is
    active, a fresh shuffled queue, position 0, front side, zero stats. *)
Definition practiceEffect (rnd : nat -> nat) (s : App) : App :=
  match activeDeck s with
  | Some n =>
      if decide (screen s = Practice) then
        {| activeDeck := activeDeck s; screen := screen s;
           queue := map Some (shuffleArray rnd (indices n)); currentIdx := 0;
           showBack := false; stats := {| seen := 0; st_correct := 0 |};
           testQueue := testQueue s; testIdx := testIdx s; testScore := testScore s |}
      else s
  | None => s
  end.

(** [flip = () => setShowBack((b) => !b)] *)
Definition flip (s : App) : App :=
  {| activeDeck := activeDeck s; screen := screen s; queue := queue s;
     currentIdx := currentIdx s; showBack := negb (showBack s); stats := stats s;
     testQueue := testQueue s; testIdx := testIdx s; testScore := testScore s |}.

(** [shuffleNow]: reshuffle the whole deck, keep the stats. *)
Definition shuffleNow (rnd : nat -> nat) (s : App) : App :=
  match activeDeck s with
  | None => s
  | Some n =>
      {| activeDeck := activeDeck s; screen := screen s;
         queue := map Some (shuffleArray rnd (indices n)); currentIdx := 0;
         showBack := false; stats := stats s;
         testQueue := testQueue s; testIdx := testIdx s; testScore := testScore s |}
  end.

(** [const [cur] = q.splice(i, 1)]: the removed entry ([undefined] when
    [i >= q.length], in which case nothing is removed) and the new [q]. *)
Definition splice_remove (i : nat) (q : list (option nat)) : option nat * list (option nat) :=
  (default None (q !! i), take i q ++ drop (S i) q).

(** [q.splice(k, 0, x)] with [0 <= k]: insert [x] before index [k]
    (at the end when [k >= q.length]). *)
Definition splice_insert {A} (k : nat) (x : A) (q : list A) : list A :=
  take k q ++ x :: drop k q.

(** [nextPractice(correct)] *)
Definition nextPractice (correct : bool) (s : App) : App :=
  match activeDeck s, queue s with
  | None, _ | _, [] => s
  | Some _, _ :: _ =>
      let '(cur, q1) := splice_remove (currentIdx s) (queue s) in
      let q := if correct then q1 ++ [cur]
               else splice_insert (clamp (currentIdx s + 2) 0 (length q1)) cur q1 in
      let newIdx := if length q <=? currentIdx s then 0 else currentIdx s in
      {| activeDeck := activeDeck s; screen := screen s; queue := q;
         currentIdx := newIdx; showBack := false;
         stats := {| seen := seen (stats s) + 1;
                     st_correct := st_correct (stats s) + b2n correct |};
         testQueue := testQueue s; testIdx := testIdx s; testScore := testScore s |}
  end.

(* ------------------------------------------------------------------ *)
(** ** Test mode *)

(** [startTest] *)
Definition startTest (rnd : nat -> nat) (s : App) : App :=
  match activeDeck s with
  | None => s
  | Some n =>
      let idx := shuffleArray rnd (indices n) in
      {| activeDeck := activeDeck s; screen := Test; queue := queue s;
         currentIdx := currentIdx s; showBack := false; stats := stats s;
         testQueue := idx; testIdx := 0;
         testScore := {| sc_correct := 0; total := length idx |} |}
  end.

(** [answerTest(correct)] *)
Definition answerTest (correct : bool) (s : App) : App :=
  let score := {| sc_correct := sc_correct (testScore s) + b2n correct;
                  total := total (testScore s) |} in
  if length (testQueue s) <=? testIdx s + 1 then
    {| activeDeck := activeDeck s; screen := Results; queue := queue s;
       currentIdx := currentIdx s; showBack := showBack s; stats := stats s;
       testQueue := testQueue s; testIdx := testIdx s; testScore := score |}
  else
    {| activeDeck := activeDeck s; screen := screen s; queue := queue s;
       currentIdx := currentIdx s; showBack := false; stats := stats s;
       testQueue := testQueue s; testIdx := testIdx s + 1; testScore := score |}.

(** The answer buttons ("Wrong" / "Got it") are rendered only under
    [screen === "test" && activeDeck]; elsewhere there is no way to call
    [answerTest] ([None]). *)
Definition answerButton (correct : bool) (s : App) : option App :=
  match activeDeck s with
  | Some _ => if decide (screen s = Test) then Some (answerTest correct s) else None
  | None => None
  end.

(** A run of button presses on the test screen. *)
Fixpoint answerButtons (bs : list bool) (s : App) : option App :=
  match bs with
  | [] => Some s
  | b :: bs' => answerButton b s ≫= answerButtons bs'
  end.

(** Several presses of the practice buttons in a row. *)
Fixpoint runPractice (bs : list bool) (s : App) : App :=
  match bs with
  | [] => s
  | b :: bs' => runPractice bs' (nextPractice b s)
  end.

(** The queue entry at the current position (what [currentCard] looks up). *)
Definition currentEntry (s : App) : option (option nat) := queue s !! currentIdx s.

(* ------------------------------------------------------------------ *)
(** ** The event loop *)

(** What can happen to the state: a handler runs, or a dependency of the
    practice effect ([screen], [activeDeckId], [isCasting]) changes and the
    effect runs, or the deck list is replaced (server load, save, delete)
    so that [activeDeck] is recomputed without the effect running. Events
    are not restricted to the screen whose buttons call them, so the
    reachable states below over-approximate what the UI allows. *)
Inductive Event :=
  | EvSetScreen (sc : Screen) (rnd : nat -> nat)
  | EvSelectDeck (d : option nat) (rnd : nat -> nat)
  | EvCastChanged (rnd : nat -> nat)
  | EvDecksChanged (d : option nat)
  | EvFlip
  | EvShuffleNow (rnd : nat -> nat)
  | EvNextPractice (correct : bool)
  | EvStartTest (rnd : nat -> nat)
  | EvAnswerTest (correct : bool).

Definition set_screen (sc : Screen) (s : App) : App :=
  {| activeDeck := activeDeck s; screen := sc; queue := queue s;
     currentIdx := currentIdx s; showBack := showBack s; stats := stats s;
     testQueue := testQueue s; testIdx := testIdx s; testScore := testScore s |}.

Definition set_deck (d : option nat) (s : App) : App :=
  {| activeDeck := d; screen := screen s; queue := queue s;
     currentIdx := currentIdx s; showBack := showBack s; stats := stats s;
     testQueue := testQueue s; testIdx := testIdx s; testScore := testScore s |}.

Definition step (e : Event) (s : App) : App :=
  match e with
  | EvSetScreen sc rnd => practiceEffect rnd (set_screen sc s)
  | EvSelectDeck d rnd => practiceEffect rnd (set_deck d s)
  | EvCastChanged rnd => practiceEffect rnd s
  | EvDecksChanged d => set_deck d s
  | EvFlip => flip s
  | EvShuffleNow rnd => shuffleNow rnd s
  | EvNextPractice b => nextPractice b s
  | EvStartTest rnd => startTest rnd s
  | EvAnswerTest b => answerTest b s
  end.

Fixpoint run_from (es : list Event) (s : App) : App :=
  match es with
  | [] => s
  | e :: es' => run_from es' (step e s)
  end.

Definition reachable (s : App) : Prop := exists es, s = run_from es init.

(** A fixed random source for concrete runs. *)
Definition rnd0 : nat -> nat := fun _ => 0.

(** The practice events of a session on a three-card deck. *)
Definition practice_events : list Event :=
  [EvSelectDeck (Some 3) rnd0; EvSetScreen Practice rnd0].

(** The practice state of the scenario: deck [[A,B,C]] (indices 0, 1, 2),
    queue [[B,A,C]], position 0. *)
Definition practice_BAC : App := {|
  activeDeck := Some 3; screen := Practice; queue := [Some 1; Some 0; Some 2];
  currentIdx := 0; showBack := false; stats := {| seen := 0; st_correct := 0 |};
  testQueue := []; testIdx := 0; testScore := {| sc_correct := 0; total := 0 |}
|}.

(** The mode chooser for a deck of [n] cards, nothing started yet. *)
Definition mode_state (n : nat) : App := {|
  activeDeck := Some n; screen := Mode; queue := []; currentIdx := 0;
  showBack := false; stats := {| seen := 0; st_correct := 0 |};
  testQueue := []; testIdx := 0; testScore := {| sc_correct := 0; total := 0 |}
|}.

(** The number of [true] answers in a run of button presses. *)
Fixpoint ncorrect (bs : list bool) : nat :=
  match bs with
  | [] => 0
  | b :: bs' => b2n b + ncorrect bs'
  end.

(* ------------------------------------------------------------------ *)
(** ** Deck editor: [saveDraft] *)

(** A JavaScript string: its UTF-16 code units. *)
Definition jsstr := list N.

(** ASCII text as a JavaScript string (for concrete inputs). *)
Definition js (s : String.string) : jsstr :=
  map (fun a => N.of_nat (Ascii.nat_of_ascii a)) (String.list_ascii_of_string s).

(** The code units [String.prototype.trim] removes: WhiteSpace (TAB, VT,
    FF, SP, NBSP, ZWNBSP and the Unicode Zs characters) and LineTerminator
    (LF, CR, LS, PS). *)
Definition ws_units : list N :=
  [9; 10; 11; 12; 13; 32; 160; 5760; 8192; 8193; 8194; 8195; 8196; 8197;
   8198; 8199; 8200; 8201; 8202; 8232; 8233; 8239; 8287; 12288; 65279]%N.

Definition is_ws (c : N) : bool := existsb (N.eqb c) ws_units.

Fixpoint trim_start (s : jsstr) : jsstr :=
  match s with
  | [] => []
  | c :: s' => if is_ws c then trim_start s' else s
  end.

(** [s.trim()]: drop leading and trailing white space. *)
Definition trim (s : jsstr) : jsstr := rev (trim_start (rev (trim_start s))).

(** [(x || "")] for an optional string: [undefined] and [""] give [""]. *)
Definition or_empty (x : option jsstr) : jsstr := default [] x.

(** [Card]: [{ id, front, back?, hint? }]; a missing field is [None]. *)
Record Card := { cid : option jsstr; front : option jsstr; back : option jsstr; hint : option jsstr }.

(** [Deck]: [{ id, name, cards }]. *)
Record Deck := { deck_id : option jsstr; name : option jsstr; cards : option (list Card) }.

Definition untitled : jsstr := js "Untitled Deck".

(** [(x || "").trim() || undefined] *)
Definition trim_or_undefined (x : option jsstr) : option jsstr :=
  match trim (or_empty x) with
  | [] => None
  | t => Some t
  end.

(** The per-card [map] callback of [saveDraft]. [uid()] is random; the
    value it returns when called for the [k]-th card is [uid k]. *)
Definition clean_card (uid : nat -> jsstr) (k : nat) (c : Card) : Card :=
  {| cid := match cid c with
            | Some (_ :: _) => cid c
            | _ => Some (uid k)
            end;
     front := Some (trim (or_empty (front c)));
     back := trim_or_undefined (back c);
     hint := trim_or_undefined (hint c) |}.

(** [c.front.length > 0] on a cleaned card. *)
Definition has_front (c : Card) : bool := 0 <? length (or_empty (front c)).

(** [saveDraft]: the deck [clean] that is persisted ([None] when there is no
    draft and the handler returns early). *)
Definition saveDraft (uid : nat -> jsstr) (draftDeck : option Deck) : option Deck :=
  match draftDeck with
  | None => None
  | Some d =>
      Some {| deck_id := deck_id d;
              name := Some (match trim (or_empty (name d)) with
                            | [] => untitled
                            | t => t
                            end);
              cards := Some (List.filter has_front
                               (imap (clean_card uid) (default [] (cards d)))) |}
  end.

(** The draft of the spec's round trip: cards [[{front: "cat"}, {front: ""}]]. *)
Definition draft_cat : Deck := {|
  deck_id := Some (js "d1"); name := Some (js "Words");
  cards := Some [ {| cid := None; front := Some (js "cat"); back := None; hint := None |};
                  {| cid := None; front := Some (js ""); back := None; hint := None |} ] |}.

(** A draft whose only card has a padded front. *)
Definition draft_padded : Deck := {|
  deck_id := Some (js "d2"); name := Some (js "Words");
  cards := Some [ {| cid := Some (js "c1"); front := Some (js " cat"); back := None; hint := None |} ] |}.

Definition uid0 : nat -> jsstr := fun _ => js "k3j9x0ab".

(** The selection test on a draft card: its front, trimmed, is not empty. *)
Definition draft_has_front (c : Card) : bool := 0 <? length (trim (or_empty (front c))).

(* ------------------------------------------------------------------ *)
(** ** Deck editor: the draft handlers *)

(** [c.id === cid]: the handlers get [c.id] of a rendered card, a string
    or [undefined] ([None]). *)
Definition has_id (id : option jsstr) (c : Card) : bool :=
  bool_decide (cid c = id).

(** JavaScript truthiness of an optional string. *)
Definition truthy (x : option jsstr) : bool :=
  match x with
  | Some (_ :: _) => true
  | _ => false
  end.

Definition with_cards (d : Deck) (cs : list Card) : Deck :=
  {| deck_id := deck_id d; name := name d; cards := Some cs |}.

(** The draft handlers read [draftDeck.cards]; when it is missing the
    handler throws before [setDraftDeck], which leaves the draft as it is. *)

(** [removeDraftCard(cid)] *)
Definition removeDraftCard (id : option jsstr) (draftDeck : option Deck) : option Deck :=
  match draftDeck with
  | None => None
  | Some d =>
      match cards d with
      | None => Some d
      | Some cs => Some (with_cards d (List.filter (fun c => negb (has_id id c)) cs))
      end
  end.

(** The patches the editor passes to [updateDraftCard]: [{ back: value }]
    and [{ hint: value }]. *)
Inductive Patch := PatchBack (v : jsstr) | PatchHint (v : jsstr).

(** [{ ...c, ...patch }] *)
Definition apply_patch (c : Card) (p : Patch) : Card :=
  match p with
  | PatchBack v => {| cid := cid c; front := front c; back := Some v; hint := hint c |}
  | PatchHint v => {| cid := cid c; front := front c; back := back c; hint := Some v |}
  end.

(** [updateDraftCard(cid, patch)] *)
Definition updateDraftCard (id : option jsstr) (p : Patch) (draftDeck : option Deck) : option Deck :=
  match draftDeck with
  | None => None
  | Some d =>
      match cards d with
      | None => Some d
      | Some cs => Some (with_cards d (map (fun c => if has_id id c then apply_patch c p else c) cs))
      end
  end.

(** [{ id: newId, front: "", back: "", hint: "" }] *)
Definition blank_card (newId : jsstr) : Card :=
  {| cid := Some newId; front := Some []; back := Some []; hint := Some [] |}.

(** [addBlankCard()]: [newId] is the value of [uid()]. *)
Definition addBlankCard (newId : jsstr) (draftDeck : option Deck) : option Deck :=
  match draftDeck with
  | None => None
  | Some d =>
      match cards d with
      | None => Some d
      | Some cs => Some (with_cards d (cs ++ [blank_card newId]))
      end
  end.

(** [deck.cards.findIndex((c) => c.id === cid)], [None] for [-1]. *)
Fixpoint findIndex (id : option jsstr) (cs : list Card) : option nat :=
  match cs with
  | [] => None
  | c :: cs' => if has_id id c then Some 0 else S <$> findIndex id cs'
  end.

(** [!c.front && !c.back && !c.hint] *)
Definition is_blank (c : Card) : bool :=
  negb (truthy (front c)) && negb (truthy (back c)) && negb (truthy (hint c)).

Definition set_front (c : Card) (value : jsstr) : Card :=
  {| cid := cid c; front := Some value; back := back c; hint := hint c |}.

(** [onFrontChange(cid, value)]: the updater passed to [setDraftDeck];
    [newId] is the value of [uid()] when a blank card is appended. *)
Definition onFrontChange (id : option jsstr) (value newId : jsstr) (draftDeck : option Deck) : option Deck :=
  match draftDeck with
  | None => None
  | Some prev =>
      match cards prev with
      | None => Some prev
      | Some cs =>
          match findIndex id cs with
          | None => Some prev
          | Some idx =>
              let wasEmpty := negb (truthy (front (default (blank_card []) (cs !! idx)))) in
              let cs1 := <[idx := set_front (default (blank_card []) (cs !! idx)) value]> cs in
              let hasTrailingBlank := existsb is_blank cs1 in
              if wasEmpty && truthy (Some (trim value)) && negb hasTrailingBlank
              then Some (with_cards prev (cs1 ++ [blank_card newId]))
              else Some (with_cards prev cs1)
          end
      end
  end.

(** [toggleCardExpansion(cardId)] on the set [expandedCards]. *)
Definition toggleCardExpansion (id : option jsstr) (expanded : gset (option jsstr)) : gset (option jsstr) :=
  if decide (id ∈ expanded) then expanded ∖ {[ id ]} else expanded ∪ {[ id ]}.

(* ------------------------------------------------------------------ *)
(** ** The deck list *)

(** The hooks [decks], [activeDeckId], [draftDeck], [isNewDeck] and
    [screen]. [activeDeckId] is [null] ([None]) or a deck's [id], itself a
    string or [undefined] ([Some None]). *)
Record Store := {
  decks : list Deck;
  activeDeckId : option (option jsstr);
  draftDeck : option Deck;
  isNewDeck : bool;
  escreen : Screen
}.

(** [activeDeck = decks.find((d) => d.id === activeDeckId) || null] *)
Definition activeDeckOf (st : Store) : option Deck :=
  List.find (fun d => bool_decide (activeDeckId st = Some (deck_id d))) (decks st).

(** [startModeChooser(deckId)] *)
Definition startModeChooser (deckId : option jsstr) (st : Store) : Store :=
  {| decks := decks st; activeDeckId := Some deckId; draftDeck := draftDeck st;
     isNewDeck := isNewDeck st; escreen := Mode |}.

(** [startEditDeck(deckId)]; the JSON copy of a deck is the deck itself. *)
Definition startEditDeck (deckId : option jsstr) (st : Store) : Store :=
  match List.find (fun d => bool_decide (deck_id d = deckId)) (decks st) with
  | None => st
  | Some original =>
      {| decks := decks st; activeDeckId := activeDeckId st; draftDeck := Some original;
         isNewDeck := false; escreen := Editor |}
  end.

(** [addDeck()]; [newId] is the value of [uid()]. *)
Definition addDeck (newId : jsstr) (st : Store) : Store :=
  {| decks := decks st; activeDeckId := Some (Some newId);
     draftDeck := Some {| deck_id := Some newId; name := Some (js "New Deck"); cards := Some [] |};
     isNewDeck := true; escreen := Editor |}.

(** [discardDraft()] *)
Definition discardDraft (st : Store) : Store :=
  if isNewDeck st then
    {| decks := decks st; activeDeckId := None; draftDeck := None;
       isNewDeck := false; escreen := Home |}
  else
    {| decks := decks st; activeDeckId := activeDeckId st; draftDeck := None;
       isNewDeck := isNewDeck st; escreen := Mode |}.

(** [deleteDeck(deckId)]; [confirmed] is the answer to [window.confirm]. *)
Definition deleteDeck (confirmed : bool) (deckId : option jsstr) (st : Store) : Store :=
  if confirmed then
    {| decks := List.filter (fun x => negb (bool_decide (deck_id x = deckId))) (decks st);
       activeDeckId := if bool_decide (activeDeckId st = Some deckId) then None else activeDeckId st;
       draftDeck := None; isNewDeck := isNewDeck st; escreen := Home |}
  else st.


(** Concrete editor inputs: a draft with a card ["cat"] (back ["meow"])
    and an empty card, the deck it saves to, and two stores. *)
Definition card_cat : Card :=
  {| cid := Some (js "c1"); front := Some (js "cat"); back := Some (js "meow"); hint := None |}.

Definition card_empty : Card :=
  {| cid := Some (js "c2"); front := Some (js ""); back := None; hint := None |}.

Definition draft_edit : Deck :=
  {| deck_id := Some (js "d3"); name := Some (js " Animals "); cards := Some [card_cat; card_empty] |}.

Definition saved_edit : Deck :=
  {| deck_id := Some (js "d3"); name := Some (js "Animals");
     cards := Some [ {| cid := Some (js "c1"); front := Some (js "cat");
                        back := Some (js "meow"); hint := None |} ] |}.




(* ================================================================== *)
(** * Lemmas *)

Example shuffle_3 : shuffleArray (fun _ => 0) (indices 3) = [1; 2; 0].
Proof. reflexivity. Qed.

(* ------------------------------------------------------------------ *)
(** ** Shuffle lemmas *)

Lemma pick_le (rnd : nat -> nat) (i : nat) : pick rnd i <= i.
Proof.
  unfold pick. pose proof (Nat.mod_upper_bound (rnd i) (S i)). lia.
Qed.

Lemma swap_Permutation {A} (i j : nat) (a : list A) :
  swap i j a ≡ₚ a.
Proof.
  unfold swap.
  destruct (a !! i) as [ai|] eqn:Hi; [|done].
  destruct (a !! j) as [aj|] eqn:Hj; [|done].
  by apply Permutation_insert_swap.
Qed.

Lemma fy_loop_Permutation {A} (rnd : nat -> nat) (i : nat) (a : list A) :
  fy_loop rnd i a ≡ₚ a.
Proof.
  revert a. induction i as [|i IH]; intros a; simpl; [done|].
  by rewrite IH, swap_Permutation.
Qed.

Lemma shuffleArray_Permutation {A} (rnd : nat -> nat) (arr : list A) :
  shuffleArray rnd arr ≡ₚ arr.
Proof. apply fy_loop_Permutation. Qed.

Lemma shuffle_indices_NoDup (rnd : nat -> nat) (n : nat) :
  NoDup (shuffleArray rnd (indices n)).
Proof. rewrite shuffleArray_Permutation. apply NoDup_seq. Qed.

(** *** Queue surgery *)

Lemma splice_remove_lookup (i : nat) (q : list (option nat)) (cur : option nat) :
  q !! i = Some cur -> splice_remove i q = (cur, delete i q).
Proof. intros H. unfold splice_remove. by rewrite H, delete_take_drop. Qed.

Lemma splice_insert_Permutation {A} (k : nat) (x : A) (q : list A) :
  splice_insert k x q ≡ₚ x :: q.
Proof.
  unfold splice_insert. rewrite <- Permutation_middle, take_drop. done.
Qed.

Lemma length_splice_insert {A} (k : nat) (x : A) (q : list A) :
  length (splice_insert k x q) = S (length q).
Proof. by rewrite splice_insert_Permutation. Qed.

(** [nextPractice] when a deck is active and the position points into the
    queue: what it does to the queue, the position and the stats. *)
Lemma nextPractice_at (b : bool) (s : App) (n : nat) (cur : option nat) :
  activeDeck s = Some n ->
  queue s !! currentIdx s = Some cur ->
  queue (nextPractice b s) =
    (if b then delete (currentIdx s) (queue s) ++ [cur]
     else splice_insert (Nat.min (currentIdx s + 2) (length (queue s) - 1)) cur
            (delete (currentIdx s) (queue s))) /\
  currentIdx (nextPractice b s) = currentIdx s /\
  stats (nextPractice b s) =
    {| seen := seen (stats s) + 1; st_correct := st_correct (stats s) + b2n b |} /\
  activeDeck (nextPractice b s) = activeDeck s.
Proof.
  intros Hd Hl.
  pose proof (lookup_lt_Some _ _ _ Hl) as Hlt.
  assert (Hlen : length (delete (currentIdx s) (queue s)) = length (queue s) - 1).
  { apply length_delete. by eexists. }
  unfold nextPractice. rewrite Hd.
  destruct (queue s) as [|x t] eqn:Hq; [simpl in Hlt; lia|].
  rewrite (splice_remove_lookup _ _ _ Hl). simpl.
  assert (Hcl : clamp (currentIdx s + 2) 0 (length (delete (currentIdx s) (x :: t)))
                = Nat.min (currentIdx s + 2) (length t)).
  { rewrite Hlen. unfold clamp. simpl. lia. }
  rewrite Hcl.
  assert (Hnew : length (if b then delete (currentIdx s) (x :: t) ++ [cur]
                 else splice_insert (Nat.min (currentIdx s + 2) (length t)) cur
                        (delete (currentIdx s) (x :: t))) = S (length t)).
  { destruct b.
    - rewrite length_app, Hlen. simpl in *. lia.
    - rewrite length_splice_insert, Hlen. simpl in *. lia. }
  rewrite Hnew. simpl in Hlt.
  destruct (S (length t) <=? currentIdx s) eqn:E.
  - apply Nat.leb_le in E. lia.
  - simpl. rewrite Nat.sub_0_r. repeat split; done.
Qed.

Lemma nextPractice_Permutation (b : bool) (s : App) :
  currentIdx s < length (queue s) -> queue (nextPractice b s) ≡ₚ queue s.
Proof.
  intros Hlt.
  destruct (activeDeck s) as [n|] eqn:Hd.
  2:{ unfold nextPractice. by rewrite Hd. }
  destruct (lookup_lt_is_Some_2 _ _ Hlt) as [cur Hl].
  destruct (nextPractice_at b s n cur Hd Hl) as (Hq & _).
  rewrite Hq. transitivity (cur :: delete (currentIdx s) (queue s)).
  - destruct b.
    + by rewrite Permutation_app_comm.
    + by rewrite splice_insert_Permutation.
  - symmetry. by apply delete_Permutation.
Qed.

Lemma nextPractice_currentIdx (b : bool) (s : App) :
  currentIdx s < length (queue s) -> currentIdx (nextPractice b s) = currentIdx s.
Proof.
  intros Hlt.
  destruct (activeDeck s) as [n|] eqn:Hd.
  2:{ unfold nextPractice. by rewrite Hd. }
  destruct (lookup_lt_is_Some_2 _ _ Hlt) as [cur Hl].
  apply (nextPractice_at b s n cur Hd Hl).
Qed.

Lemma nextPractice_activeDeck (b : bool) (s : App) :
  activeDeck (nextPractice b s) = activeDeck s.
Proof.
  unfold nextPractice.
  destruct (activeDeck s) eqn:Hd; [|done].
  destruct (queue s); [done|]. by destruct (splice_remove _ _).
Qed.

(** *** The practice invariant of the reachable states *)

(** Every reachable state has its practice position at 0 (every write to
    [currentIdx] is [0] or keeps the old value) and a queue without
    repeated entries. *)
Definition PracticeInv (s : App) : Prop := currentIdx s = 0 /\ NoDup (queue s).

Lemma NoDup_map_Some (l : list nat) : NoDup l -> NoDup (map Some l).
Proof.
  induction 1 as [|x l Hx Hl IH]; simpl; constructor; [|done].
  rewrite list_elem_of_In, in_map_iff. intros (y & Hy & Hin).
  injection Hy as ->. apply Hx. by apply list_elem_of_In.
Qed.

Lemma fresh_queue_NoDup (rnd : nat -> nat) (n : nat) :
  NoDup (map Some (shuffleArray rnd (indices n))).
Proof. apply NoDup_map_Some, shuffle_indices_NoDup. Qed.

Lemma practiceEffect_Inv (rnd : nat -> nat) (s : App) :
  PracticeInv s -> PracticeInv (practiceEffect rnd s).
Proof.
  intros Hs. unfold practiceEffect.
  destruct (activeDeck s); [|done].
  case_decide; [|done].
  split; [done|]. apply fresh_queue_NoDup.
Qed.

Lemma nextPractice_Inv (b : bool) (s : App) :
  PracticeInv s -> PracticeInv (nextPractice b s).
Proof.
  intros [H0 Hnd].
  destruct (queue s) as [|x t] eqn:Hq.
  - unfold nextPractice. rewrite Hq. destruct (activeDeck s); split; by rewrite ?Hq.
  - assert (Hlt : currentIdx s < length (queue s)) by (rewrite Hq, H0; simpl; lia).
    split.
    + by rewrite nextPractice_currentIdx.
    + rewrite (nextPractice_Permutation _ _ Hlt). by rewrite Hq.
Qed.

Lemma step_Inv (e : Event) (s : App) : PracticeInv s -> PracticeInv (step e s).
Proof.
  intros Hs. destruct e; simpl.
  - by apply practiceEffect_Inv.
  - by apply practiceEffect_Inv.
  - by apply practiceEffect_Inv.
  - done.
  - done.
  - unfold shuffleNow. destruct (activeDeck s); [|done].
    split; [done|]. apply fresh_queue_NoDup.
  - by apply nextPractice_Inv.
  - unfold startTest. by destruct (activeDeck s).
  - unfold answerTest. by case_match.
Qed.

Lemma run_from_Inv (es : list Event) (s : App) :
  PracticeInv s -> PracticeInv (run_from es s).
Proof.
  revert s. induction es as [|e es IH]; intros s Hs; simpl; [done|].
  apply IH, step_Inv, Hs.
Qed.

Lemma reachable_Inv (s : App) : reachable s -> PracticeInv s.
Proof.
  intros [es ->]. apply run_from_Inv. split; [done|constructor].
Qed.

(** *** Cards ahead of a given card in the practice queue *)

(** Reinserting a card [y] other than [cur] keeps every card that was ahead
    of (the first occurrence of) [cur] ahead of it. *)
Lemma splice_insert_ahead (k : nat) (y cur : option nat) (l1 l2 : list (option nat)) :
  y <> cur -> cur ∉ l1 ->
  exists L1 L2, splice_insert k y (l1 ++ cur :: l2) = L1 ++ cur :: L2 /\
                (cur ∉ L1) /\ (forall z, z ∈ l1 -> z ∈ L1).
Proof.
  intros Hy. revert k. induction l1 as [|z l1 IH]; intros k Hcur.
  - destruct k as [|k].
    + exists [y], l2. split; [done|]. split; [|set_solver]. set_solver.
    + exists [], (take k l2 ++ y :: drop k l2). split; [done|]. set_solver.
  - assert (Hz : z <> cur) by set_solver.
    assert (Hl1 : cur ∉ l1) by set_solver.
    destruct k as [|k].
    + exists (y :: z :: l1), l2. split; [done|]. set_solver.
    + destruct (IH k Hl1) as (L1 & L2 & Heq & HL1 & Hsub).
      exists (z :: L1), L2. split.
      * unfold splice_insert in *. simpl. by rewrite Heq.
      * set_solver.
Qed.

(** With the position at 0 (as in every reachable state), a card [cur]
    becomes current only after each card ahead of it has been current. *)
Lemma ahead_current (bs : list bool) :
  forall (t : App) (n : nat) (l1 l2 : list (option nat)) (cur : option nat),
  activeDeck t = Some n -> currentIdx t = 0 ->
  queue t = l1 ++ cur :: l2 -> cur ∉ l1 ->
  currentEntry (runPractice bs t) = Some cur ->
  forall x, x ∈ l1 ->
  exists k, k < length bs /\ currentEntry (runPractice (take k bs) t) = Some x.
Proof.
  induction bs as [|b bs IH]; intros t n l1 l2 cur Hd H0 Hq Hcur Hend x Hx.
  - exfalso. simpl in Hend. unfold currentEntry in Hend.
    rewrite H0, Hq in Hend.
    destruct l1 as [|h l1]; [set_solver|].
    simpl in Hend. injection Hend as ->. set_solver.
  - destruct l1 as [|h l1]; [set_solver|].
    assert (Hh : h <> cur) by set_solver.
    assert (Hl1 : cur ∉ l1) by set_solver.
    assert (Hlk : queue t !! currentIdx t = Some h) by (by rewrite H0, Hq).
    destruct (nextPractice_at b t n h Hd Hlk) as (Hq' & Hi' & _ & Hd').
    rewrite H0, Hq in Hq'. simpl in Hq'.
    assert (Hahead : exists L1 L2, queue (nextPractice b t) = L1 ++ cur :: L2 /\
                     (cur ∉ L1) /\ (forall z, z ∈ l1 -> z ∈ L1)).
    { rewrite Hq'. destruct b.
      - exists l1, (l2 ++ [h]). split; [by rewrite <- app_assoc|]. set_solver.
      - by apply splice_insert_ahead. }
    destruct Hahead as (L1 & L2 & HQ & HL1 & Hsub).
    apply elem_of_cons in Hx as [->|Hx].
    + exists 0. split; [simpl; lia|]. simpl. unfold currentEntry.
      by rewrite H0, Hq.
    + rewrite Hd in Hd'. rewrite H0 in Hi'.
      destruct (IH (nextPractice b t) n L1 L2 cur Hd' Hi' HQ HL1 Hend x (Hsub x Hx))
        as (k & Hk & Hcur').
      exists (S k). split; [simpl; lia|]. done.
Qed.

(* ================================================================== *)
(** * Claims *)

(** *** Shuffle *)

(** C4: for every [n], [shuffleArray] on the indices [0..n-1] returns a
    permutation of them of length [n] ([n = 0] gives the empty array); it
    is the Fisher-Yates loop from the last index down to 1, each step
    swapping index [i] with an index [pick rnd i <= i]. *)
Theorem shuffle_permutation (rnd : nat -> nat) (n : nat) :
  length (shuffleArray rnd (indices n)) = n /\
  shuffleArray rnd (indices n) ≡ₚ indices n /\
  shuffleArray rnd (indices 0) = [] /\
  shuffleArray rnd (indices n) = fy_loop rnd (n - 1) (indices n) /\
  (forall (i : nat) (a : list nat),
     fy_loop rnd (S i) a = fy_loop rnd i (swap (S i) (pick rnd (S i)) a) /\
     pick rnd (S i) <= S i).
Proof.
  split; [|split; [|split; [|split]]].
  - rewrite shuffleArray_Permutation. apply length_seq.
  - apply shuffleArray_Permutation.
  - reflexivity.
  - unfold shuffleArray, indices. by rewrite length_seq.
  - intros i a. split; [reflexivity|]. apply pick_le.
Qed.

(** *** Practice mode *)

(** C2: in every reachable state with an active deck (the practice buttons
    are only rendered then), [nextPractice(true)] removes the current card
    and appends it to the end of the queue; in any run of further practice
    presses, whenever that card is current again, every other card of the
    queue at the time of the call has been current in between. *)
Theorem practice_correct_to_back (s : App) (cur : option nat) :
  reachable s -> activeDeck s <> None -> currentEntry s = Some cur ->
  queue (nextPractice true s) = delete (currentIdx s) (queue s) ++ [cur] /\
  (forall bs : list bool,
     currentEntry (runPractice bs (nextPractice true s)) = Some cur ->
     forall x, x ∈ queue s -> x <> cur ->
     exists k, k < length bs /\
               currentEntry (runPractice (take k bs) (nextPractice true s)) = Some x).
Proof.
  intros Hr Hd Hcur.
  destruct (reachable_Inv s Hr) as [H0 Hnd].
  destruct (activeDeck s) as [n|] eqn:Hdn; [|done].
  destruct (nextPractice_at true s n cur Hdn Hcur) as (Hq & Hi & _ & Hd').
  split; [exact Hq|].
  unfold currentEntry in Hcur. rewrite H0 in Hcur, Hq, Hi.
  destruct (queue s) as [|y rest] eqn:Hqs; [done|].
  simpl in Hcur. injection Hcur as ->. simpl in Hq.
  apply NoDup_cons in Hnd as [Hnot _].
  intros bs Hend x Hx Hne.
  apply (ahead_current bs (nextPractice true s) n rest [] cur).
  - by rewrite Hd'.
  - exact Hi.
  - exact Hq.
  - exact Hnot.
  - exact Hend.
  - apply elem_of_cons in Hx as [->|Hx]; [done|exact Hx].
Qed.

Lemma practice_correct_to_back_witness :
  reachable (run_from practice_events init) /\
  activeDeck (run_from practice_events init) <> None /\
  currentEntry (run_from practice_events init) = Some (Some 1) /\
  queue (nextPractice true (run_from practice_events init)) = [Some 2; Some 0; Some 1].
Proof.
  assert (Hr : reachable (run_from practice_events init)) by (exists practice_events; reflexivity).
  assert (Hd : activeDeck (run_from practice_events init) <> None) by discriminate.
  assert (Hc : currentEntry (run_from practice_events init) = Some (Some 1)) by reflexivity.
  split; [exact Hr|]. split; [exact Hd|]. split; [exact Hc|].
  destruct (practice_correct_to_back _ _ Hr Hd Hc) as [Hq _].
  rewrite Hq. reflexivity.
Defined.

(** C5: in every reachable state with a non-empty queue, [nextPractice]
    keeps the queue length, and a queue that is a permutation of the
    indices [0..n-1] stays one. *)
Theorem practice_queue_conserved (b : bool) (s : App) :
  reachable s -> queue s <> [] ->
  length (queue (nextPractice b s)) = length (queue s) /\
  (forall n, queue s ≡ₚ map Some (indices n) ->
             queue (nextPractice b s) ≡ₚ map Some (indices n)).
Proof.
  intros Hr Hne.
  destruct (reachable_Inv s Hr) as [H0 _].
  assert (Hlt : currentIdx s < length (queue s)).
  { rewrite H0. destruct (queue s); [done|simpl; lia]. }
  pose proof (nextPractice_Permutation b s Hlt) as Hp.
  split.
  - by rewrite Hp.
  - intros n Hn. by rewrite Hp.
Qed.

Lemma practice_queue_conserved_witness :
  reachable (run_from practice_events init) /\
  queue (run_from practice_events init) <> [] /\
  length (queue (nextPractice false (run_from practice_events init))) = 3.
Proof.
  assert (Hr : reachable (run_from practice_events init)) by (exists practice_events; reflexivity).
  assert (Hne : queue (run_from practice_events init) <> []) by discriminate.
  split; [exact Hr|]. split; [exact Hne|].
  destruct (practice_queue_conserved false _ Hr Hne) as [Hl _].
  rewrite Hl. reflexivity.
Defined.

(** C6: with an active deck and the position on a card, [nextPractice(false)]
    removes the current card and reinserts it at index
    [min(position + 2, length of the one-shorter queue)]; [seen] goes up by
    one and [correct] is unchanged. On queue [[B,A,C]] at position 0 it gives
    [[A,C,B]] and stats [{seen: 1, correct: 0}]. *)
Theorem practice_wrong_reinsert (s : App) (n : nat) (cur : option nat) :
  activeDeck s = Some n -> queue s !! currentIdx s = Some cur ->
  (queue (nextPractice false s) =
     splice_insert (Nat.min (currentIdx s + 2) (length (delete (currentIdx s) (queue s))))
       cur (delete (currentIdx s) (queue s)) /\
   seen (stats (nextPractice false s)) = seen (stats s) + 1 /\
   st_correct (stats (nextPractice false s)) = st_correct (stats s)) /\
  (queue (nextPractice false practice_BAC) = [Some 0; Some 2; Some 1] /\
   stats (nextPractice false practice_BAC) = {| seen := 1; st_correct := 0 |}).
Proof.
  intros Hd Hl.
  destruct (nextPractice_at false s n cur Hd Hl) as (Hq & _ & Hst & _).
  split; [|split; reflexivity].
  rewrite Hq, Hst. simpl.
  rewrite length_delete by (by eexists).
  repeat split; lia.
Qed.

Lemma practice_wrong_reinsert_witness :
  activeDeck practice_BAC = Some 3 /\ queue practice_BAC !! currentIdx practice_BAC = Some (Some 1) /\
  queue (nextPractice false practice_BAC) = splice_insert 2 (Some 1) [Some 0; Some 2].
Proof.
  assert (Hd : activeDeck practice_BAC = Some 3) by reflexivity.
  assert (Hl : queue practice_BAC !! currentIdx practice_BAC = Some (Some 1)) by reflexivity.
  split; [exact Hd|]. split; [exact Hl|].
  destruct (practice_wrong_reinsert practice_BAC 3 (Some 1) Hd Hl) as [(Hq & _) _].
  rewrite Hq. reflexivity.
Defined.

(** C9: [flip] applied twice gives back the state, in particular the value
    of [showBack]; one [flip] leaves the practice queue, position and stats
    and the test queue, position and score unchanged. *)
Theorem flip_involutive (s : App) :
  showBack (flip (flip s)) = showBack s /\ flip (flip s) = s /\
  queue (flip s) = queue s /\ currentIdx (flip s) = currentIdx s /\
  stats (flip s) = stats s /\ testQueue (flip s) = testQueue s /\
  testIdx (flip s) = testIdx s /\ testScore (flip s) = testScore s.
Proof.
  destruct s as [d sc q i sb st tq ti ts]. unfold flip; simpl.
  rewrite negb_involutive. repeat split.
Qed.

(** C10: for a non-empty queue and a position inside it, [nextPractice]
    keeps the position: the queue length is unchanged when [newIdx] is
    computed, so the wrap to 0 does not happen. *)
Theorem practice_position_preserved (b : bool) (s : App) :
  queue s <> [] -> currentIdx s < length (queue s) ->
  currentIdx (nextPractice b s) = currentIdx s.
Proof. intros _ Hlt. by apply nextPractice_currentIdx. Qed.

Lemma practice_position_preserved_witness :
  queue practice_BAC <> [] /\ currentIdx practice_BAC < length (queue practice_BAC) /\
  currentIdx (nextPractice true practice_BAC) = 0.
Proof.
  assert (Hne : queue practice_BAC <> []) by discriminate.
  assert (Hlt : currentIdx practice_BAC < length (queue practice_BAC)) by (simpl; lia).
  split; [exact Hne|]. split; [exact Hlt|].
  rewrite (practice_position_preserved true practice_BAC Hne Hlt). reflexivity.
Defined.

(** *** Test mode *)

Lemma ncorrect_app (bs1 bs2 : list bool) : ncorrect (bs1 ++ bs2) = ncorrect bs1 + ncorrect bs2.
Proof. induction bs1 as [|b bs1 IH]; simpl; lia. Qed.

Lemma answerButtons_app (bs1 bs2 : list bool) (t : App) :
  answerButtons (bs1 ++ bs2) t = answerButtons bs1 t ≫= answerButtons bs2.
Proof.
  revert t. induction bs1 as [|b bs1 IH]; intros t; simpl; [done|].
  destruct (answerButton b t); simpl; [apply IH|done].
Qed.

(** Before the last card, each press moves to the next position. *)
Lemma answerButtons_progress (bs : list bool) :
  forall t : App, activeDeck t <> None -> screen t = Test ->
  testIdx t + length bs < length (testQueue t) ->
  exists t', answerButtons bs t = Some t' /\ screen t' = Test /\
    activeDeck t' = activeDeck t /\ testIdx t' = testIdx t + length bs /\
    testQueue t' = testQueue t /\
    testScore t' = {| sc_correct := sc_correct (testScore t) + ncorrect bs;
                      total := total (testScore t) |}.
Proof.
  induction bs as [|b bs IH]; intros t Hd Hs Hlt.
  - exists t. simpl. rewrite Nat.add_0_r, Nat.add_0_r. destruct (testScore t). done.
  - simpl in Hlt.
    assert (Hb : answerButton b t = Some (answerTest b t)).
    { unfold answerButton. destruct (activeDeck t); [|done]. by rewrite decide_True. }
    simpl. rewrite Hb. simpl.
    assert (Hnext : (length (testQueue t) <=? testIdx t + 1) = false).
    { apply Nat.leb_gt. lia. }
    assert (Ha : activeDeck (answerTest b t) = activeDeck t /\
                 screen (answerTest b t) = Test /\
                 testIdx (answerTest b t) = testIdx t + 1 /\
                 testQueue (answerTest b t) = testQueue t /\
                 testScore (answerTest b t) =
                   {| sc_correct := sc_correct (testScore t) + b2n b;
                      total := total (testScore t) |}).
    { unfold answerTest. rewrite Hnext. simpl. done. }
    destruct Ha as (Ha1 & Ha2 & Ha3 & Ha4 & Ha5).
    destruct (IH (answerTest b t)) as (t' & Ht' & Hs' & Hd' & Hi' & Hq' & Hsc').
    { by rewrite Ha1. }
    { exact Ha2. }
    { rewrite Ha3, Ha4. lia. }
    exists t'. rewrite Ht', Hs', Hd', Hi', Hq', Hsc', Ha1, Ha3, Ha4, Ha5. simpl.
    repeat split; try done; try lia. f_equal. lia.
Qed.

Lemma answerButtons_results (bs : list bool) (t : App) :
  screen t = Results -> bs <> [] -> answerButtons bs t = None.
Proof.
  intros Hs Hne. destruct bs as [|b bs]; [done|]. simpl.
  unfold answerButton. rewrite Hs. by destruct (activeDeck t).
Qed.

Lemma startTest_at (rnd : nat -> nat) (s : App) (n : nat) :
  activeDeck s = Some n ->
  activeDeck (startTest rnd s) = Some n /\ screen (startTest rnd s) = Test /\
  testQueue (startTest rnd s) = shuffleArray rnd (indices n) /\
  testIdx (startTest rnd s) = 0 /\
  testScore (startTest rnd s) = {| sc_correct := 0; total := n |}.
Proof.
  intros Hd. unfold startTest. rewrite Hd. simpl.
  assert (Hl : length (shuffleArray rnd (indices n)) = n).
  { rewrite shuffleArray_Permutation. apply length_seq. }
  by rewrite Hl.
Qed.

(** [nextPractice] returns early without an active deck or with an empty
    queue, and [currentCard] is then [null]. *)
Lemma practice_noop (b : bool) (s : App) :
  activeDeck s = None \/ queue s = [] -> nextPractice b s = s /\ currentCard s = None.
Proof.
  unfold nextPractice, currentCard.
  intros [H|H]; rewrite H; [done|]. by destruct (activeDeck s).
Qed.

(** C1 (as stated, refuted): starting a test on an empty deck does not put
    the session in the Results state; [startTest] always shows the test
    screen. *)
Lemma test_empty_deck_not_results :
  screen (startTest rnd0 (mode_state 0)) <> Results.
Proof. discriminate. Qed.

(** C1 (amended): starting a test on a deck of zero cards gives score
    [{correct: 0, total: 0}], an empty test queue, position 0 and the test
    screen, with no current test card. *)
Theorem test_empty_deck_start (rnd : nat -> nat) (s : App) :
  activeDeck s = Some 0 ->
  testScore (startTest rnd s) = {| sc_correct := 0; total := 0 |} /\
  testQueue (startTest rnd s) = [] /\ testIdx (startTest rnd s) = 0 /\
  screen (startTest rnd s) = Test /\ currentTestCard (startTest rnd s) = None.
Proof.
  intros Hd. destruct (startTest_at rnd s 0 Hd) as (Hd' & Hs & Hq & Hi & Hsc).
  unfold currentTestCard. rewrite Hd', Hq. done.
Qed.

Lemma test_empty_deck_start_witness :
  activeDeck (mode_state 0) = Some 0 /\ screen (startTest rnd0 (mode_state 0)) = Test.
Proof.
  assert (Hd : activeDeck (mode_state 0) = Some 0) by reflexivity.
  split; [exact Hd|]. apply (test_empty_deck_start rnd0 (mode_state 0) Hd).
Defined.

(** C3: [answerTest] has no guard for an empty test queue. On the test
    screen of an empty deck, and before any test was started, one "Got it"
    press moves to the Results screen and makes the score
    [{correct: 1, total: 0}]; [nextPractice] instead returns early
    ([practice_noop]). *)
Theorem answerTest_empty_queue_not_noop :
  let s := startTest rnd0 (mode_state 0) in
  testQueue s = [] /\ screen s = Test /\ testScore s = {| sc_correct := 0; total := 0 |} /\
  answerButton true s = Some (answerTest true s) /\
  screen (answerTest true s) = Results /\
  testScore (answerTest true s) = {| sc_correct := 1; total := 0 |} /\
  screen (answerTest true init) = Results /\
  testScore (answerTest true init) = {| sc_correct := 1; total := 0 |}.
Proof. vm_compute. repeat split. Qed.

(** C7 (as stated, refuted): on a one-card deck the answer does not move
    the position to 1 = n; it stays at 0 while the screen becomes Results. *)
Lemma test_last_answer_keeps_position :
  testIdx (answerTest true (startTest rnd0 (mode_state 1))) <>
    testIdx (startTest rnd0 (mode_state 1)) + 1 /\
  screen (answerTest true (startTest rnd0 (mode_state 1))) = Results.
Proof. vm_compute. split; [discriminate|reflexivity]. Qed.

(** C7 (amended): for a test on a deck of [n >= 1] cards, the test queue is
    a permutation of [0..n-1] without repetitions; each of the first [n - 1]
    answer presses moves the position up by one, each press adds 1 to the
    score exactly when it is correct, and the total stays [n]; the [n]-th
    press leaves the position at [n - 1] and shows Results; after that no
    answer press is possible. *)
Theorem test_one_pass (rnd : nat -> nat) (s : App) (n : nat) :
  activeDeck s = Some n -> 1 <= n ->
  testQueue (startTest rnd s) ≡ₚ indices n /\ NoDup (testQueue (startTest rnd s)) /\
  (forall bs, length bs < n -> exists t,
     answerButtons bs (startTest rnd s) = Some t /\ screen t = Test /\
     testIdx t = length bs /\ testQueue t = testQueue (startTest rnd s) /\
     testScore t = {| sc_correct := ncorrect bs; total := n |}) /\
  (forall bs, length bs = n -> exists t,
     answerButtons bs (startTest rnd s) = Some t /\ screen t = Results /\
     testIdx t = n - 1 /\ testScore t = {| sc_correct := ncorrect bs; total := n |}) /\
  (forall bs, n < length bs -> answerButtons bs (startTest rnd s) = None).
Proof.
  intros Hd Hn.
  destruct (startTest_at rnd s n Hd) as (Hd0 & Hs0 & Hq0 & Hi0 & Hsc0).
  assert (Hlen : length (testQueue (startTest rnd s)) = n).
  { rewrite Hq0, shuffleArray_Permutation. apply length_seq. }
  assert (Hpre : forall bs, length bs < n -> exists t,
     answerButtons bs (startTest rnd s) = Some t /\ screen t = Test /\
     activeDeck t = Some n /\
     testIdx t = length bs /\ testQueue t = testQueue (startTest rnd s) /\
     testScore t = {| sc_correct := ncorrect bs; total := n |}).
  { intros bs Hbs.
    destruct (answerButtons_progress bs (startTest rnd s)) as (t & Ht & Hs & Hd' & Hi & Hq & Hsc).
    - by rewrite Hd0.
    - exact Hs0.
    - rewrite Hi0, Hlen. lia.
    - exists t. rewrite Hsc, Hsc0, Hi, Hi0, Hd', Hd0. simpl. done. }
  assert (Hfull : forall bs, length bs = n -> exists t,
     answerButtons bs (startTest rnd s) = Some t /\ screen t = Results /\
     testIdx t = n - 1 /\ testScore t = {| sc_correct := ncorrect bs; total := n |}).
  { intros bs Hbs.
    destruct bs as [|b0 bs0] using rev_ind; [simpl in Hbs; lia|]. clear IHbs0.
    rewrite length_app in Hbs. simpl in Hbs.
    destruct (Hpre bs0 ltac:(lia)) as (t & Ht & Hs & Hd' & Hi & Hq & Hsc).
    rewrite answerButtons_app, Ht. simpl.
    unfold answerButton. rewrite Hd', Hs, decide_True by done. simpl.
    assert (Hlast : (length (testQueue t) <=? testIdx t + 1) = true).
    { apply Nat.leb_le. rewrite Hq, Hlen, Hi. lia. }
    eexists. split; [reflexivity|].
    unfold answerTest. rewrite Hlast. simpl.
    rewrite Hi, Hsc, ncorrect_app. simpl. split; [reflexivity|]. split; [lia|]. f_equal. lia. }
  split; [|split; [|split; [|split]]].
  - rewrite Hq0. apply shuffleArray_Permutation.
  - rewrite Hq0. apply shuffle_indices_NoDup.
  - intros bs Hbs. destruct (Hpre bs Hbs) as (t & ? & ? & _ & ? & ? & ?).
    exists t. done.
  - exact Hfull.
  - intros bs Hbs.
    rewrite <- (take_drop n bs), answerButtons_app.
    destruct (Hfull (take n bs)) as (t & Ht & Hs & _); [rewrite length_take; lia|].
    rewrite Ht. simpl. apply answerButtons_results; [exact Hs|].
    intros Hnil. apply (f_equal length) in Hnil. rewrite length_drop in Hnil. simpl in Hnil. lia.
Qed.

Lemma test_one_pass_witness :
  activeDeck (mode_state 2) = Some 2 /\ 1 <= 2 /\
  exists t, answerButtons [true; false] (startTest rnd0 (mode_state 2)) = Some t /\
            screen t = Results /\ testScore t = {| sc_correct := 1; total := 2 |}.
Proof.
  assert (Hd : activeDeck (mode_state 2) = Some 2) by reflexivity.
  assert (Hn : 1 <= 2) by lia.
  split; [exact Hd|]. split; [exact Hn|].
  destruct (test_one_pass rnd0 (mode_state 2) 2 Hd Hn) as (_ & _ & _ & Hfull & _).
  destruct (Hfull [true; false] eq_refl) as (t & Ht & Hs & _ & Hsc).
  exists t. split; [exact Ht|]. split; [exact Hs|]. exact Hsc.
Defined.

(** *** Deck editor *)

Lemma filter_imap_clean_card (uid : nat -> jsstr) (l : list Card) (k : nat) :
  List.filter has_front (imap (fun i c => clean_card uid (k + i) c) l) =
  map (fun kc => clean_card uid kc.1 kc.2)
      (List.filter (fun kc => draft_has_front kc.2) (zip (seq k (length l)) l)).
Proof.
  revert k. induction l as [|c l IH]; intros k; [done|].
  simpl. rewrite Nat.add_0_r.
  assert (Hf : has_front (clean_card uid k c) = draft_has_front c) by reflexivity.
  rewrite Hf.
  assert (Himap : imap ((fun i c => clean_card uid (k + i) c) ∘ S) l =
                  imap (fun i c => clean_card uid (S k + i) c) l).
  { apply imap_ext. intros i x _. simpl. by rewrite Nat.add_succ_r. }
  rewrite Himap, IH.
  destruct (draft_has_front c); done.
Qed.

(** C8 (as stated, refuted): the saved cards are not the draft cards
    themselves; a card whose front is [" cat"] is kept, but saved with the
    front ["cat"]. *)
Lemma saveDraft_cards_not_draft_cards :
  option_map cards (saveDraft uid0 (Some draft_padded)) <>
  Some (option_map (List.filter draft_has_front) (cards draft_padded)).
Proof. vm_compute. intros H. inversion H. Qed.

(** C8 (amended): saving a draft gives a non-empty name (the trimmed draft
    name, or ["Untitled Deck"] when that is empty) and, in order, the draft
    cards whose trimmed front is non-empty, each saved in its cleaned form
    ([clean_card]: front, back and hint trimmed, an empty back or hint
    dropped, a fresh id when it had none); the draft
    [[{front: "cat"}, {front: ""}]] saves to the single card ["cat"]. *)
Theorem saveDraft_clean (uid : nat -> jsstr) (d : Deck) :
  (exists d', saveDraft uid (Some d) = Some d' /\
     (exists nm, name d' = Some nm /\ nm <> [] /\
        nm = match trim (or_empty (name d)) with [] => untitled | t => t end) /\
     cards d' = Some (map (fun kc => clean_card uid kc.1 kc.2)
                        (List.filter (fun kc => draft_has_front kc.2)
                           (zip (seq 0 (length (default [] (cards d)))) (default [] (cards d)))))) /\
  option_map (fun d' => option_map (map front) (cards d')) (saveDraft uid (Some draft_cat)) =
    Some (Some [Some (js "cat")]).
Proof.
  split; [|reflexivity].
  eexists. split; [reflexivity|]. simpl. split.
  - eexists. split; [reflexivity|]. split; [|reflexivity].
    destruct (trim (or_empty (name d))); discriminate.
  - f_equal. apply (filter_imap_clean_card uid _ 0).
Qed.

(* ================================================================== *)
(** * Further properties of the code *)

(** *** Practice mode *)

(** [nextPractice] at position 0 on the queue [x :: t]. *)
Lemma nextPractice_head (b : bool) (s : App) (n : nat) (x : option nat) (t : list (option nat)) :
  activeDeck s = Some n -> currentIdx s = 0 -> queue s = x :: t ->
  queue (nextPractice b s) = (if b then t ++ [x] else splice_insert (Nat.min 2 (length t)) x t) /\
  currentIdx (nextPractice b s) = 0 /\ activeDeck (nextPractice b s) = Some n.
Proof.
  intros Hd H0 Hq.
  assert (Hl : queue s !! currentIdx s = Some x) by (by rewrite H0, Hq).
  destruct (nextPractice_at b s n x Hd Hl) as (Hq' & Hi & _ & Hd').
  rewrite H0, Hq in Hq'. rewrite H0 in Hi. rewrite Hd in Hd'.
  simpl in Hq'. rewrite Nat.sub_0_r in Hq'. done.
Qed.

Lemma splice_insert_end {A} (x : A) (t : list A) : splice_insert (length t) x t = t ++ [x].
Proof. unfold splice_insert. by rewrite take_ge, drop_ge by lia. Qed.

(** The invariant of the reachable states, with the queue contents and
    the stats. *)
Definition PracticeInv2 (s : App) : Prop :=
  currentIdx s = 0 /\ (exists m, queue s ≡ₚ map Some (indices m)) /\
  st_correct (stats s) <= seen (stats s).

Lemma fresh_queue_perm (rnd : nat -> nat) (n : nat) :
  map Some (shuffleArray rnd (indices n)) ≡ₚ map Some (indices n).
Proof. apply Permutation_map, shuffleArray_Permutation. Qed.

Lemma step_Inv2 (e : Event) (s : App) : PracticeInv2 s -> PracticeInv2 (step e s).
Proof.
  intros (H0 & [m Hm] & Hst).
  assert (Heff : forall rnd t, PracticeInv2 t -> PracticeInv2 (practiceEffect rnd t)).
  { intros rnd t Ht. unfold practiceEffect.
    destruct (activeDeck t) as [n|]; [|done]. case_decide; [|done].
    split; [done|]. split; [exists n; apply fresh_queue_perm|simpl; lia]. }
  assert (Hs : PracticeInv2 s) by (split; [done|split; [by exists m|done]]).
  destruct e; simpl.
  - apply Heff. exact Hs.
  - apply Heff. exact Hs.
  - apply Heff. exact Hs.
  - exact Hs.
  - exact Hs.
  - unfold shuffleNow. destruct (activeDeck s) as [n|]; [|done].
    split; [done|]. split; [exists n; apply fresh_queue_perm|done].
  - destruct (queue s) as [|x t] eqn:Hq.
    + unfold nextPractice. rewrite Hq. by destruct (activeDeck s).
    + destruct (activeDeck s) as [n|] eqn:Hd.
      2:{ unfold nextPractice. by rewrite Hd. }
      assert (Hl : queue s !! currentIdx s = Some x) by (by rewrite H0, Hq).
      destruct (nextPractice_at correct s n x Hd Hl) as (_ & Hi & Hstats & _).
      assert (Hlt : currentIdx s < length (queue s)) by (rewrite H0, Hq; simpl; lia).
      split; [by rewrite Hi|]. split.
      * exists m. etransitivity; [apply (nextPractice_Permutation _ _ Hlt)|].
        rewrite ?Hq. exact Hm.
      * rewrite Hstats. simpl. destruct correct; simpl; lia.
  - unfold startTest. by destruct (activeDeck s).
  - unfold answerTest. by case_match.
Qed.

Lemma reachable_Inv2 (s : App) : reachable s -> PracticeInv2 s.
Proof.
  intros [es ->].
  assert (Hinit : PracticeInv2 init) by (split; [done|split; [by exists 0|simpl; lia]]).
  revert Hinit. generalize init. induction es as [|e es IH]; intros s0 Hs0; simpl; [done|].
  apply IH, step_Inv2, Hs0.
Qed.

(** X1: in every reachable state the practice position is 0 (so the
    practice screen always reads "Card 1 / n" and shows the queue head),
    the queue is a permutation of [0..m-1] for some [m] (no [undefined]
    entry, no repetition), and [stats.correct <= stats.seen]. *)
Theorem reachable_practice_state (s : App) :
  reachable s ->
  currentIdx s = 0 /\ (exists m, queue s ≡ₚ map Some (indices m)) /\
  st_correct (stats s) <= seen (stats s).
Proof. apply reachable_Inv2. Qed.

Lemma reachable_practice_state_witness :
  reachable (run_from (practice_events ++ [EvNextPractice false; EvNextPractice true]) init) /\
  currentIdx (run_from (practice_events ++ [EvNextPractice false; EvNextPractice true]) init) = 0.
Proof.
  assert (Hr : reachable (run_from (practice_events ++ [EvNextPractice false; EvNextPractice true]) init))
    by (eexists; reflexivity).
  split; [exact Hr|]. apply (reachable_practice_state _ Hr).
Defined.



(** X3: at position 0 on a queue of at most three cards, "Wrong" and
    "Got it" leave the same queue and position (the card goes to the end
    either way); only [stats.correct] tells them apart. *)
Theorem short_queue_wrong_is_right (s : App) :
  currentIdx s = 0 -> length (queue s) <= 3 ->
  queue (nextPractice false s) = queue (nextPractice true s) /\
  currentIdx (nextPractice false s) = currentIdx (nextPractice true s).
Proof.
  intros H0 Hlen.
  destruct (activeDeck s) as [n|] eqn:Hd.
  2:{ unfold nextPractice. by rewrite Hd. }
  destruct (queue s) as [|x t] eqn:Hq.
  { unfold nextPractice. by rewrite Hd, Hq. }
  destruct (nextPractice_head false s n x t Hd H0 Hq) as (Hf & Hif & _).
  destruct (nextPractice_head true s n x t Hd H0 Hq) as (Ht & Hit & _).
  split; [|by rewrite Hif, Hit].
  rewrite Hf, Ht. simpl in Hlen.
  replace (Nat.min 2 (length t)) with (length t) by lia. apply splice_insert_end.
Qed.

Lemma short_queue_wrong_is_right_witness :
  currentIdx practice_BAC = 0 /\ length (queue practice_BAC) <= 3 /\
  queue (nextPractice false practice_BAC) = queue (nextPractice true practice_BAC).
Proof.
  assert (H0 : currentIdx practice_BAC = 0) by reflexivity.
  assert (Hl : length (queue practice_BAC) <= 3) by (simpl; lia).
  split; [exact H0|]. split; [exact Hl|].
  apply (proj1 (short_queue_wrong_is_right _ H0 Hl)).
Defined.



(** *** Test mode *)

(** X5: starting a test discards the previous test: the new test queue,
    position, score and screen depend only on the active deck (and the
    random draws), not on any earlier test; the practice session is left
    untouched. Without an active deck nothing happens. *)
Theorem startTest_fresh (rnd : nat -> nat) (s1 s2 : App) :
  activeDeck s1 = activeDeck s2 -> activeDeck s1 <> None ->
  testQueue (startTest rnd s1) = testQueue (startTest rnd s2) /\
  testIdx (startTest rnd s1) = testIdx (startTest rnd s2) /\
  testScore (startTest rnd s1) = testScore (startTest rnd s2) /\
  screen (startTest rnd s1) = screen (startTest rnd s2) /\
  queue (startTest rnd s1) = queue s1 /\ currentIdx (startTest rnd s1) = currentIdx s1 /\
  stats (startTest rnd s1) = stats s1 /\
  startTest rnd (set_deck None s1) = set_deck None s1.
Proof.
  intros Heq Hd. unfold startTest. rewrite <- Heq.
  destruct (activeDeck s1); [|done]. simpl. repeat split.
Qed.

Lemma startTest_fresh_witness :
  activeDeck (answerTest true (startTest rnd0 (mode_state 2))) = activeDeck (mode_state 2) /\
  testScore (startTest rnd0 (answerTest true (startTest rnd0 (mode_state 2)))) =
    {| sc_correct := 0; total := 2 |}.
Proof.
  assert (Heq : activeDeck (answerTest true (startTest rnd0 (mode_state 2))) = activeDeck (mode_state 2))
    by reflexivity.
  assert (Hd : activeDeck (answerTest true (startTest rnd0 (mode_state 2))) <> None) by discriminate.
  split; [exact Heq|].
  destruct (startTest_fresh rnd0 _ _ Heq Hd) as (_ & _ & Hsc & _).
  rewrite Hsc. reflexivity.
Defined.

(** *** Deck editor: draft handlers *)

Lemma with_cards_self (d : Deck) (cs : list Card) :
  cards d = Some cs -> with_cards d cs = d.
Proof. destruct d; simpl; intros ->; reflexivity. Qed.

Lemma has_id_false (id : option jsstr) (c : Card) :
  has_id id c = false <-> cid c <> id.
Proof. unfold has_id. rewrite bool_decide_eq_false. tauto. Qed.

Lemma filter_all {A} (f : A -> bool) (l : list A) :
  (forall x, x ∈ l -> f x = true) -> List.filter f l = l.
Proof.
  induction l as [|x l IH]; intros Hall; [done|]. simpl.
  rewrite (Hall x) by (apply elem_of_cons; auto).
  f_equal. apply IH. intros y Hy. apply Hall. apply elem_of_cons; auto.
Qed.

Lemma length_filter_negb {A} (f : A -> bool) (l : list A) :
  length (List.filter (fun x => negb (f x)) l) + length (List.filter f l) = length l.
Proof. induction l as [|x l IH]; [done|]. simpl. destruct (f x); simpl; lia. Qed.

Lemma filter_sublist {A} (f : A -> bool) (l : list A) :
  List.filter f l `sublist_of` l.
Proof.
  induction l as [|x l IH]; [done|]. simpl.
  destruct (f x); [by apply sublist_skip|by apply sublist_cons].
Qed.

Lemma elem_of_filter_bool {A} (f : A -> bool) (l : list A) (x : A) :
  x ∈ List.filter f l <-> x ∈ l /\ f x = true.
Proof. rewrite !list_elem_of_In. apply filter_In. Qed.

Lemma findIndex_Some (id : option jsstr) (cs : list Card) (i : nat) (c : Card) :
  cs !! i = Some c -> cid c = id ->
  (forall j c', j < i -> cs !! j = Some c' -> cid c' <> id) ->
  findIndex id cs = Some i.
Proof.
  revert i. induction cs as [|c0 cs IH]; intros i Hi Hc Hbefore; [done|].
  destruct i as [|i]; simpl in *.
  - injection Hi as ->. unfold has_id. rewrite bool_decide_eq_true_2 by done. done.
  - assert (has_id id c0 = false) as ->.
    { apply has_id_false. apply (Hbefore 0); [lia|done]. }
    rewrite (IH i Hi Hc); [done|].
    intros j c' Hj Hc'. apply (Hbefore (S j)); [lia|done].
Qed.

Lemma findIndex_None (id : option jsstr) (cs : list Card) :
  (forall c, c ∈ cs -> cid c <> id) -> findIndex id cs = None.
Proof.
  induction cs as [|c cs IH]; intros Hall; [done|]. simpl.
  assert (has_id id c = false) as ->.
  { apply has_id_false, Hall, elem_of_cons. auto. }
  rewrite IH; [done|]. intros c' Hc'. apply Hall, elem_of_cons. auto.
Qed.

(** X6: [removeDraftCard] on a draft with cards [cs] leaves no card with
    that id, keeps every other card in its order, removes exactly the cards
    with that id, and a second removal changes nothing; when no card has
    the id the draft is returned as it was. *)
Theorem removeDraftCard_removes (id : option jsstr) (d : Deck) (cs : list Card) :
  cards d = Some cs ->
  exists cs', removeDraftCard id (Some d) = Some (with_cards d cs') /\
    (forall c, c ∈ cs' -> cid c <> id) /\
    (forall c, c ∈ cs -> cid c <> id -> c ∈ cs') /\
    cs' `sublist_of` cs /\
    length cs' + length (List.filter (has_id id) cs) = length cs /\
    removeDraftCard id (removeDraftCard id (Some d)) = removeDraftCard id (Some d) /\
    ((forall c, c ∈ cs -> cid c <> id) -> removeDraftCard id (Some d) = Some d).
Proof.
  intros Hcs. exists (List.filter (fun c => negb (has_id id c)) cs).
  unfold removeDraftCard. rewrite Hcs. split; [done|].
  split; [|split; [|split; [|split; [|split]]]].
  - intros c Hc. apply elem_of_filter_bool in Hc as [_ Hc].
    apply negb_true_iff, has_id_false in Hc. exact Hc.
  - intros c Hc Hid. apply elem_of_filter_bool. split; [done|].
    apply negb_true_iff, has_id_false. exact Hid.
  - apply filter_sublist.
  - apply length_filter_negb.
  - simpl. do 2 f_equal.
    apply filter_all. intros c Hc. by apply elem_of_filter_bool in Hc as [_ Hc].
  - intros Hall. rewrite filter_all.
    + f_equal. by apply with_cards_self.
    + intros c Hc. apply negb_true_iff, has_id_false, Hall, Hc.
Qed.

(** X7: [updateDraftCard] with a [{ back }] or [{ hint }] patch keeps the
    number of cards, their ids and their fronts; a card with another id is
    unchanged and a card with that id gets the patch. *)
Theorem updateDraftCard_patch (id : option jsstr) (p : Patch) (d : Deck) (cs : list Card) :
  cards d = Some cs ->
  exists cs', updateDraftCard id p (Some d) = Some (with_cards d cs') /\
    length cs' = length cs /\
    map cid cs' = map cid cs /\ map front cs' = map front cs /\
    (forall i c, cs !! i = Some c -> cid c <> id -> cs' !! i = Some c) /\
    (forall i c, cs !! i = Some c -> cid c = id -> cs' !! i = Some (apply_patch c p)).
Proof.
  intros Hcs. eexists. unfold updateDraftCard. rewrite Hcs. split; [reflexivity|].
  split; [|split; [|split; [|split]]].
  - apply length_map.
  - rewrite map_map. apply map_ext. intros c. destruct (has_id id c), p; done.
  - rewrite map_map. apply map_ext. intros c. destruct (has_id id c), p; done.
  - intros i c Hi Hid. rewrite list_lookup_fmap, Hi. simpl.
    apply has_id_false in Hid. by rewrite Hid.
  - intros i c Hi Hid. rewrite list_lookup_fmap, Hi. simpl.
    unfold has_id. by rewrite bool_decide_eq_true_2.
Qed.

(** X8: [addBlankCard] appends a card that [saveDraft] drops: saving after
    adding a blank card saves the same deck as saving before. *)
Theorem addBlankCard_not_saved (uid : nat -> jsstr) (newId : jsstr) (dd : option Deck) :
  saveDraft uid (addBlankCard newId dd) = saveDraft uid dd.
Proof.
  destruct dd as [[i n [cs|]]|]; [|done|done].
  simpl. do 3 f_equal. rewrite imap_app, List.filter_app. simpl.
  rewrite app_nil_r. reflexivity.
Qed.

(** X9: typing into the front of a card with an id no card has (or in a
    draft without cards) leaves the draft as it was. *)
Theorem onFrontChange_absent (id : option jsstr) (value newId : jsstr) (d : Deck) :
  (forall cs, cards d = Some cs -> forall c, c ∈ cs -> cid c <> id) ->
  onFrontChange id value newId (Some d) = Some d.
Proof.
  intros Hall. unfold onFrontChange.
  destruct (cards d) as [cs|] eqn:Hcs; [|done].
  by rewrite findIndex_None by (apply Hall; done).
Qed.

(** X10: typing [value] into the front of the first card [c] with id [id]
    (at position [i]) sets that front and leaves every other card as it
    was; at most one card is appended, and it is the blank card
    [{ id: newId, front: "", back: "", hint: "" }]; when the front was
    empty and [value] has a non-blank character, the draft then holds a
    blank card to type the next word into. *)
Theorem onFrontChange_edit (id : option jsstr) (value newId : jsstr) (d : Deck)
    (cs : list Card) (i : nat) (c : Card) :
  cards d = Some cs -> cs !! i = Some c -> cid c = id ->
  (forall j c', j < i -> cs !! j = Some c' -> cid c' <> id) ->
  exists cs', onFrontChange id value newId (Some d) = Some (with_cards d cs') /\
    take (length cs) cs' = <[i := set_front c value]> cs /\
    (drop (length cs) cs' = [] \/ drop (length cs) cs' = [blank_card newId]) /\
    (truthy (front c) = false -> trim value <> [] ->
       exists b, b ∈ cs' /\ is_blank b = true).
Proof.
  intros Hcs Hi Hid Hbefore.
  pose proof (findIndex_Some id cs i c Hi Hid Hbefore) as Hfind.
  unfold onFrontChange. rewrite Hcs, Hfind, Hi.
  change (default (blank_card []) (Some c)) with c.
  assert (Hlen : length (<[i:=set_front c value]> cs) = length cs) by apply length_insert.
  destruct (negb (truthy (front c)) && truthy (Some (trim value))
            && negb (existsb is_blank (<[i:=set_front c value]> cs))) eqn:Hcond.
  - eexists. split; [reflexivity|]. split; [|split].
    + rewrite <- Hlen. apply take_app_length.
    + right. rewrite <- Hlen. apply drop_app_length.
    + intros _ _. exists (blank_card newId). split; [|done].
      apply elem_of_app. right. apply list_elem_of_singleton. done.
  - eexists. split; [reflexivity|]. split; [|split].
    + apply take_ge. lia.
    + left. apply drop_ge. lia.
    + intros Hempty Hval.
      assert (Htr : truthy (Some (trim value)) = true).
      { destruct (trim value); [done|reflexivity]. }
      rewrite Hempty, Htr in Hcond. simpl in Hcond.
      apply negb_false_iff, existsb_exists in Hcond as (b & Hb & Hbl).
      exists b. split; [by apply list_elem_of_In|exact Hbl].
Qed.

(** X11: [toggleCardExpansion] twice on the same card restores the set of
    expanded cards; once, it flips that card and no other. *)
Theorem toggleCardExpansion_involutive (id : option jsstr) (S : gset (option jsstr)) :
  toggleCardExpansion id (toggleCardExpansion id S) = S /\
  (id ∈ toggleCardExpansion id S <-> id ∉ S) /\
  (forall id', id' <> id -> id' ∈ toggleCardExpansion id S <-> id' ∈ S).
Proof.
  unfold toggleCardExpansion.
  destruct (decide (id ∈ S)) as [Hin|Hout].
  - destruct (decide (id ∈ S ∖ {[id]})) as [Hc|_].
    { exfalso. apply elem_of_difference in Hc as [_ Hc]. by apply Hc, elem_of_singleton. }
    split; [|split].
    + apply set_eq. intros x. rewrite elem_of_union, elem_of_difference, elem_of_singleton.
      destruct (decide (x = id)) as [->|Hne]; tauto.
    + rewrite elem_of_difference, elem_of_singleton. tauto.
    + intros id' Hne. rewrite elem_of_difference, elem_of_singleton. tauto.
  - destruct (decide (id ∈ S ∪ {[id]})) as [_|Hc].
    2:{ exfalso. apply Hc, elem_of_union. right. by apply elem_of_singleton. }
    split; [|split].
    + apply set_eq. intros x. rewrite elem_of_difference, elem_of_union, elem_of_singleton.
      destruct (decide (x = id)) as [->|Hne]; tauto.
    + rewrite elem_of_union, elem_of_singleton. tauto.
    + intros id' Hne. rewrite elem_of_union, elem_of_singleton. tauto.
Qed.

(** *** Deck editor: the deck list *)

Lemma find_none_all {A} (p : A -> bool) (l : list A) :
  (forall x, x ∈ l -> p x = false) -> List.find p l = None.
Proof.
  induction l as [|x l IH]; intros Hall; [done|]. simpl.
  rewrite (Hall x) by (apply elem_of_cons; auto).
  apply IH. intros y Hy. apply Hall, elem_of_cons. auto.
Qed.

Lemma find_filter {A} (p q : A -> bool) (l : list A) :
  (forall x, p x = true -> q x = true) ->
  List.find p (List.filter q l) = List.find p l.
Proof.
  intros Hpq. induction l as [|x l IH]; [done|]. simpl.
  destruct (q x) eqn:Hq; simpl.
  - destruct (p x); [done|exact IH].
  - destruct (p x) eqn:Hp; [|exact IH].
    rewrite (Hpq x Hp) in Hq. discriminate.
Qed.




(** X12: a confirmed [deleteDeck] leaves no deck with that id and keeps every
    other deck; the active deck is cleared when it was the deleted one and
    is otherwise still the same deck; the draft is dropped and the home
    screen shown. *)
Theorem deleteDeck_confirmed (deckId : option jsstr) (st : Store) :
  (forall d, d ∈ decks (deleteDeck true deckId st) -> deck_id d <> deckId) /\
  (forall d, d ∈ decks st -> deck_id d <> deckId -> d ∈ decks (deleteDeck true deckId st)) /\
  (activeDeckId st = Some deckId -> activeDeckOf (deleteDeck true deckId st) = None) /\
  (activeDeckId st <> Some deckId ->
     activeDeckOf (deleteDeck true deckId st) = activeDeckOf st) /\
  draftDeck (deleteDeck true deckId st) = None /\ escreen (deleteDeck true deckId st) = Home.
Proof.
  split; [|split; [|split; [|split; [|split]]]]; try reflexivity.
  - intros d Hd. simpl in Hd. apply elem_of_filter_bool in Hd as [_ Hd].
    apply negb_true_iff, bool_decide_eq_false in Hd. exact Hd.
  - intros d Hd Hid. simpl. apply elem_of_filter_bool. split; [done|].
    apply negb_true_iff, bool_decide_eq_false. exact Hid.
  - intros Ha. unfold activeDeckOf. simpl.
    rewrite bool_decide_eq_true_2 by exact Ha.
    apply find_none_all. intros x _. by apply bool_decide_eq_false.
  - intros Ha. unfold activeDeckOf. simpl.
    rewrite bool_decide_eq_false_2 by exact Ha.
    apply find_filter. intros x Hx.
    apply bool_decide_eq_true in Hx. apply negb_true_iff, bool_decide_eq_false.
    intros Hid. apply Ha. rewrite Hx, Hid. reflexivity.
Qed.



(** X15: discarding the draft right after [addDeck] keeps the deck list and
    leaves no active deck, on the home screen; discarding right after
    [startEditDeck] of a listed deck keeps the deck list and the active
    deck, on the mode screen. *)
Theorem discardDraft_round_trip (newId : jsstr) (deckId : option jsstr) (st : Store) :
  (decks (discardDraft (addDeck newId st)) = decks st /\
   activeDeckOf (discardDraft (addDeck newId st)) = None /\
   draftDeck (discardDraft (addDeck newId st)) = None /\
   isNewDeck (discardDraft (addDeck newId st)) = false /\
   escreen (discardDraft (addDeck newId st)) = Home) /\
  ((exists d, d ∈ decks st /\ deck_id d = deckId) ->
   decks (discardDraft (startEditDeck deckId st)) = decks st /\
   activeDeckOf (discardDraft (startEditDeck deckId st)) = activeDeckOf st /\
   draftDeck (discardDraft (startEditDeck deckId st)) = None /\
   isNewDeck (discardDraft (startEditDeck deckId st)) = false /\
   escreen (discardDraft (startEditDeck deckId st)) = Mode).
Proof.
  split.
  - repeat split. unfold activeDeckOf. simpl. apply find_none_all.
    intros x _. reflexivity.
  - intros Hex. unfold startEditDeck.
    destruct (List.find (fun d => bool_decide (deck_id d = deckId)) (decks st)) eqn:Hf.
    + repeat split.
    + exfalso. destruct Hex as (d & Hd & Hid).
      pose proof (find_none _ _ Hf d) as Hnone.
      rewrite <- list_elem_of_In in Hnone.
      specialize (Hnone Hd). apply bool_decide_eq_false in Hnone. done.
Qed.

(** *** Saving twice *)

Lemma trim_start_suffix (s : jsstr) : exists p, s = p ++ trim_start s.
Proof.
  induction s as [|x s IH]; [by exists []|]. simpl.
  destruct (is_ws x).
  - destruct IH as [p Hp]. exists (x :: p). simpl. by rewrite <- Hp.
  - by exists [].
Qed.

Lemma trim_start_head (s : jsstr) (x : N) (r : jsstr) :
  trim_start s = x :: r -> is_ws x = false.
Proof.
  induction s as [|y s IH]; simpl; [discriminate|].
  destruct (is_ws y) eqn:Hy; [exact IH|]. intros [= -> _]. exact Hy.
Qed.

Lemma trim_start_fix (s : jsstr) :
  (forall x r, s = x :: r -> is_ws x = false) -> trim_start s = s.
Proof. destruct s as [|x r]; [done|]. intros H. simpl. by rewrite (H x r eq_refl). Qed.

Lemma trim_start_idem (s : jsstr) : trim_start (trim_start s) = trim_start s.
Proof. apply trim_start_fix. intros x r Hs. by apply (trim_start_head s x r). Qed.

Lemma trim_idem (s : jsstr) : trim (trim s) = trim s.
Proof.
  unfold trim.
  set (A := trim_start s). set (B := trim_start (rev A)).
  assert (HB : trim_start (rev B) = rev B).
  { apply trim_start_fix. intros x r Hr.
    destruct (trim_start_suffix (rev A)) as [p Hp]. fold B in Hp.
    assert (HA : A = x :: rev (p ++ rev r)).
    { rewrite <- (rev_involutive A), Hp, <- (rev_involutive B), Hr.
      rewrite !rev_app_distr, !rev_involutive. reflexivity. }
    by apply (trim_start_head s x (rev (p ++ rev r))). }
  rewrite HB, rev_involutive. unfold B. by rewrite trim_start_idem.
Qed.

Lemma trim_or_undefined_idem (x : option jsstr) :
  trim_or_undefined (trim_or_undefined x) = trim_or_undefined x.
Proof.
  unfold trim_or_undefined at 2 3.
  destruct (trim (or_empty x)) as [|u t] eqn:Ht; [reflexivity|].
  unfold trim_or_undefined. simpl. rewrite <- Ht, trim_idem, Ht. reflexivity.
Qed.

Lemma clean_card_idem (uid : nat -> jsstr) (k j : nat) (c : Card) :
  uid k <> [] -> clean_card uid j (clean_card uid k c) = clean_card uid k c.
Proof.
  intros Hk. unfold clean_card. cbn [cid front back hint].
  rewrite !trim_or_undefined_idem.
  change (or_empty (Some (trim (or_empty (front c))))) with (trim (or_empty (front c))).
  rewrite trim_idem. f_equal.
  destruct (cid c) as [[|u t]|]; [|reflexivity|];
    destruct (uid k) as [|u' t'] eqn:Hu; done.
Qed.

Lemma imap_fix {A} (f : nat -> A -> A) (l : list A) :
  (forall i x, x ∈ l -> f i x = x) -> imap f l = l.
Proof.
  revert f. induction l as [|x l IH]; intros f Hf; [done|]. simpl.
  rewrite (Hf 0 x) by (apply elem_of_cons; auto). f_equal.
  apply IH. intros i y Hy. apply Hf, elem_of_cons. auto.
Qed.

Lemma saved_card_fix (uid : nat -> jsstr) (cs : list Card) (c : Card) :
  (forall k, uid k <> []) ->
  c ∈ List.filter has_front (imap (clean_card uid) cs) ->
  has_front c = true /\ forall j, clean_card uid j c = c.
Proof.
  intros Hu Hc. apply elem_of_filter_bool in Hc as [Hc Hf]. split; [exact Hf|].
  apply list_elem_of_lookup in Hc as [i Hi].
  rewrite list_lookup_imap in Hi. destruct (cs !! i) as [c0|]; [|discriminate].
  injection Hi as <-. intros j. apply clean_card_idem, Hu.
Qed.

(** X16: when [uid()] never returns [""], saving a deck that [saveDraft]
    produced changes nothing: names, ids, fronts, backs and hints are
    already trimmed, every card keeps its id and no card is dropped. *)
Theorem saveDraft_idempotent (uid : nat -> jsstr) (d clean : Deck) :
  (forall k, uid k <> []) ->
  saveDraft uid (Some d) = Some clean -> saveDraft uid (Some clean) = Some clean.
Proof.
  intros Hu Hs. injection Hs as <-. simpl. f_equal. f_equal.
  - destruct (trim (or_empty (name d))) as [|u t] eqn:Ht; simpl.
    + reflexivity.
    + rewrite <- Ht, trim_idem, Ht. reflexivity.
  - f_equal. rewrite imap_fix.
    + apply filter_all. intros c Hc. by apply (saved_card_fix uid (default [] (cards d))).
    + intros i c Hc. by apply (saved_card_fix uid (default [] (cards d))).
Qed.

(** *** Witnesses for the editor properties *)

Lemma removeDraftCard_removes_witness :
  cards draft_edit = Some [card_cat; card_empty] /\
  removeDraftCard (Some (js "c1")) (removeDraftCard (Some (js "c1")) (Some draft_edit)) =
    removeDraftCard (Some (js "c1")) (Some draft_edit).
Proof.
  split; [reflexivity|].
  destruct (removeDraftCard_removes (Some (js "c1")) draft_edit [card_cat; card_empty]
              ltac:(reflexivity)) as (cs' & _ & _ & _ & _ & _ & Hidem & _).
  exact Hidem.
Defined.

Lemma updateDraftCard_patch_witness :
  cards draft_edit = Some [card_cat; card_empty] /\
  exists cs', updateDraftCard (Some (js "c2")) (PatchBack (js "woof")) (Some draft_edit) =
              Some (with_cards draft_edit cs') /\ map front cs' = map front [card_cat; card_empty].
Proof.
  split; [reflexivity|].
  destruct (updateDraftCard_patch (Some (js "c2")) (PatchBack (js "woof")) draft_edit
              [card_cat; card_empty] ltac:(reflexivity)) as (cs' & Hu & _ & _ & Hf & _).
  exists cs'. split; [exact Hu|exact Hf].
Defined.

Lemma onFrontChange_absent_witness :
  (forall cs, cards draft_edit = Some cs -> forall c, c ∈ cs -> cid c <> Some (js "c9")) /\
  onFrontChange (Some (js "c9")) (js "dog") (js "n1") (Some draft_edit) = Some draft_edit.
Proof.
  assert (H : forall cs, cards draft_edit = Some cs -> forall c, c ∈ cs -> cid c <> Some (js "c9")).
  { intros cs Hcs c Hc. injection Hcs as <-.
    apply elem_of_cons in Hc as [->|Hc]; [vm_compute; discriminate|].
    apply elem_of_cons in Hc as [->|Hc]; [vm_compute; discriminate|].
    by apply elem_of_nil in Hc. }
  split; [exact H|]. apply (onFrontChange_absent _ _ _ _ H).
Defined.

Lemma onFrontChange_edit_witness :
  cards draft_edit = Some [card_cat; card_empty] /\
  [card_cat; card_empty] !! 1 = Some card_empty /\ cid card_empty = Some (js "c2") /\
  (forall j c', j < 1 -> [card_cat; card_empty] !! j = Some c' -> cid c' <> Some (js "c2")) /\
  exists cs', onFrontChange (Some (js "c2")) (js "dog") (js "n1") (Some draft_edit) =
              Some (with_cards draft_edit cs') /\ exists b, b ∈ cs' /\ is_blank b = true.
Proof.
  assert (Hb : forall j c', j < 1 -> [card_cat; card_empty] !! j = Some c' ->
                 cid c' <> Some (js "c2")).
  { intros j c' Hj Hc. destruct j as [|j]; [|lia].
    injection Hc as <-. vm_compute. discriminate. }
  split; [reflexivity|]. split; [reflexivity|]. split; [reflexivity|]. split; [exact Hb|].
  destruct (onFrontChange_edit (Some (js "c2")) (js "dog") (js "n1") draft_edit
              [card_cat; card_empty] 1 card_empty ltac:(reflexivity) ltac:(reflexivity)
              ltac:(reflexivity) Hb) as (cs' & He & _ & _ & Hblank).
  exists cs'. split; [exact He|]. apply Hblank; [reflexivity|vm_compute; discriminate].
Defined.



Lemma saveDraft_idempotent_witness :
  (forall k, uid0 k <> []) /\ saveDraft uid0 (Some draft_edit) = Some saved_edit /\
  saveDraft uid0 (Some saved_edit) = Some saved_edit.
Proof.
  assert (Hu : forall k, uid0 k <> []) by (intros k; vm_compute; discriminate).
  assert (Hs : saveDraft uid0 (Some draft_edit) = Some saved_edit) by (vm_compute; reflexivity).
  split; [exact Hu|]. split; [exact Hs|].
  exact (saveDraft_idempotent uid0 draft_edit saved_edit Hu Hs).
Defined.
